(** * Transducer pipeline of [fp.js]: composition, reducer transformers, fold

    A shallow embedding of the higher-order functions of [src/fp.js]
    ([compose], [composeFast], [foldFast], [fold], [rMap], [rFilter],
    [concat] and the arithmetic helpers) together with the properties the
    specification states about them.

    JavaScript functions are Rocq functions into a small evaluation monad
    that threads
    - the caller-visible mutable state (so that caller-supplied transforms,
      predicates and reducers may have side effects and may throw), and
    - the number of call-stack frames still available (so that running out
      of stack is an observable outcome, as it is for the benchmark's
      recursive [fold]).

    Conventions of the embedding:
    - every call expression [g(a)] of the source is [call (g a)]; a curried
      application that only builds a closure ([rMap(fn)], [rMap(fn)(reducer)],
      [foldFast(fn, initial)], [composeFast(...fns)]) is a partial
      application in Rocq;
    - rest and spread arguments [(...args)] carry one argument, as in all
      uses of the repository;
    - JavaScript numbers are modelled by [Z]: the embedding is exact as long
      as the values stay in the safe-integer range. *)

From Stdlib Require Import List ZArith Arith Bool Lia.
From Equations Require Import Equations.
From Equations.Prop Require Import Logic.
Import ListNotations.

Set Implicit Arguments.

(** ** Evaluation monad *)

(** Abrupt completions. *)
Inductive error : Type :=
| TypeError             (* calling [undefined]; reduceRight of an empty array *)
| StackOverflow         (* RangeError: Maximum call stack size exceeded *)
| Thrown (tag : nat).   (* raised by caller-supplied code *)

Inductive outcome (St X : Type) : Type :=
| Ok (x : X) (s : St)
| Err (e : error) (s : St).

Arguments Ok {St X} x s.
Arguments Err {St X} e s.

(** A computation receives the number of free stack frames and the current
    state. *)
Definition M (St X : Type) : Type := nat -> St -> outcome St X.

Definition ret {St X} (x : X) : M St X := fun _ s => Ok x s.

Definition bind {St X Y} (m : M St X) (k : X -> M St Y) : M St Y :=
  fun d s =>
    match m d s with
    | Ok x s' => k x d s'
    | Err e s' => Err e s'
    end.

Definition throw {St X} (e : error) : M St X := fun _ s => Err e s.

(** A function call: the callee's body runs with one frame less; with no
    frame left the engine raises its stack-overflow [RangeError]. *)
Definition call {St X} (body : M St X) : M St X :=
  fun d s =>
    match d with
    | O => Err StackOverflow s
    | S d' => body d' s
    end.

Declare Scope js_scope.
Delimit Scope js_scope with js.
Notation "x <- m ;; k" := (bind m (fun x => k))
  (at level 61, m at next level, right associativity) : js_scope.
Open Scope js_scope.

(** Monadic left fold, the reading of "apply the step to every element in
    order, threading the accumulator". *)
Fixpoint foldlM {St A E} (step : A -> E -> M St A) (xs : list E) (acc : A)
  : M St A :=
  match xs with
  | [] => ret acc
  | x :: xs' => acc' <- step acc x ;; foldlM step xs' acc'
  end.

(** Caller-supplied functions without side effects. *)
Definition pure1 {St X Y} (f : X -> Y) : X -> M St Y :=
  fun x => ret (f x).

Definition pure2 {St X Y Z} (f : X -> Y -> Z) : X -> Y -> M St Z :=
  fun x y => ret (f x y).

(** A side effect on the caller-visible state. *)
Definition modify {St} (g : St -> St) : M St unit :=
  fun _ s => Ok tt (g s).

(** Stack usage: an outcome is a stack overflow, and a computation fits in
    [k] frames when no run that starts with at least [k] free frames
    overflows. *)
Definition overflows {St X} (o : outcome St X) : Prop :=
  match o with
  | Err StackOverflow _ => True
  | _ => False
  end.

Definition fits {St X} (k : nat) (m : M St X) : Prop :=
  forall d s, k <= d -> ~ overflows (m d s).

(** ** The functions of [fp.js] *)

Section Fp.

Context {St : Type}.

Local Abbreviation M := (M St).

(** [const isEven = (x) => x % 2 === 0;]  ([%] truncates: [Z.rem]) *)
Definition isEven (x : Z) : M bool := ret (Z.rem x 2 =? 0)%Z.

(** [const add = (x, y) => x + y;] *)
Definition add (x y : Z) : M Z := ret (x + y)%Z.

(** [const add1 = (x) => x + 1;] *)
Definition add1 (x : Z) : M Z := ret (x + 1)%Z.

(** [const multBy10 = (x) => x * 10;] *)
Definition multBy10 (x : Z) : M Z := ret (x * 10)%Z.

(** [Array.prototype.reduceRight] called without an initial value: the
    last element seeds the accumulator and the callback visits the
    remaining elements from right to left; an empty array is a
    [TypeError]. *)
Definition reduceRight {T} (callbackfn : T -> T -> M T) (arr : list T) : M T :=
  match rev arr with
  | [] => throw TypeError
  | last :: rest => foldlM (fun acc cur => call (callbackfn acc cur)) rest last
  end.

(** [Array.prototype.reduce] called with an initial value. *)
Definition reduce {A E} (callbackfn : A -> E -> M A) (initialValue : A)
  (arr : list E) : M A :=
  foldlM (fun acc cur => call (callbackfn acc cur)) arr initialValue.

(** [const compose = (...fns) =>
      fns.reduceRight((f, g) => (...args) => g(f(...args)));] *)
Definition compose {A} (fns : list (A -> M A)) : M (A -> M A) :=
  reduceRight
    (fun f g => ret (fun args => y <- call (f args) ;; call (g y)))
    fns.

(** The [for] loop of [composeFast]:
    [for (let i = fns.length - 1; i > 1; i--) result = fns[i](result);]
    Calling a missing entry ([fns[i]] is [undefined]) is a [TypeError]. *)
Fixpoint composeFast_loop {A} (fns : list (A -> M A)) (i : nat) (result : A)
  : M A :=
  match i with
  | S (S _ as i') =>
      match nth_error fns i with
      | Some f => result' <- call (f result) ;; composeFast_loop fns i' result'
      | None => throw TypeError
      end
  | _ => ret result
  end.

(** [const composeFast = (...fns) => (...args) => {
      let result = fns[0](...args);
      for (let i = fns.length - 1; i > 1; i--) { result = fns[i](result); }
      return result; };]
    With no function at all [fns[0]] is [undefined] and the call throws
    before the loop (so [fns.length - 1] is only computed for a non-empty
    array). *)
Definition composeFast {A} (fns : list (A -> M A)) (args : A) : M A :=
  match nth_error fns 0 with
  | Some f0 =>
      result <- call (f0 args) ;;
      composeFast_loop fns (length fns - 1) result
  | None => throw TypeError
  end.

(** [const foldFast = (fn, initial) => (xs) => {
      for (let i = 0; i < xs.length; i++) initial = fn(initial, xs[i]);
      return initial; };]
    The cursor [i] is explicit; [i < xs.length] holds exactly when
    [xs[i]] is an element of the array. *)
Equations? foldFast_loop {A E} (fn : A -> E -> M A) (xs : list E) (i : nat)
  (initial : A) : M A by wf (length xs - i) lt :=
  foldFast_loop fn xs i initial with inspect (nth_error xs i) := {
    | exist _ (Some x) _ =>
        initial' <- call (fn initial x) ;; foldFast_loop fn xs (S i) initial'
    | exist _ None _ => ret initial }.
Proof.
  assert (i < length xs) by (apply nth_error_Some; congruence). lia.
Qed.

Definition foldFast {A E} (fn : A -> E -> M A) (initial : A) (xs : list E)
  : M A :=
  foldFast_loop fn xs 0 initial.

(** [const rMap = (fn) => (reducer) => (acc, x) => reducer(acc, fn(x));] *)
Definition rMap {A E E2} (fn : E -> M E2) (reducer : A -> E2 -> M A)
  : A -> E -> M A :=
  fun acc x => y <- call (fn x) ;; call (reducer acc y).

(** [const rFilter = (predicate) => (reducer) => (acc, x) =>
      (predicate(x) ? reducer(acc, x) : acc);] *)
Definition rFilter {A E} (predicate : E -> M bool) (reducer : A -> E -> M A)
  : A -> E -> M A :=
  fun acc x =>
    b <- call (predicate x) ;;
    if b then call (reducer acc x) else ret acc.

(** [const concat = (acc, x) => { acc.push(x); return acc; };]
    The array is owned by the running fold, so pushing in place is
    appending. *)
Definition concat {E} (acc : list E) (x : E) : M (list E) :=
  ret (acc ++ [x]).

(** [const fold = (fn, initial) => (x) => {
      const [head, ...tail] = x;
      const result = fn(initial, head);
      return tail.length > 0 ? fold(fn, result)(tail) : fn(initial, head); };]
    Destructuring an empty array binds [head] to [undefined], which the
    caller of the model supplies for the element type. *)
Fixpoint fold {A E} (undefined : E) (fn : A -> E -> M A) (initial : A)
  (x : list E) : M A :=
  let head := hd undefined x in
  match x with
  | [] =>
      result <- call (fn initial head) ;;
      call (fn initial head)
  | _ :: tail =>
      result <- call (fn initial head) ;;
      if 0 <? length tail
      then call (fold undefined fn result tail)
      else call (fn initial head)
  end.

(** The expression [foldFast(composeFast(t1, ..., tn)(r), initial)(xs)]:
    the transducer pipeline built with [composeFast]. *)
Definition transduceFast {A E}
  (ts : list ((A -> E -> M A) -> M (A -> E -> M A)))
  (r : A -> E -> M A) (initial : A) (xs : list E) : M A :=
  reducer <- call (composeFast ts r) ;;
  call (foldFast reducer initial xs).

(** The expression [foldFast(compose(t1, ..., tn)(r), initial)(xs)]: the
    same pipeline built with [compose]. *)
Definition transduce {A E}
  (ts : list ((A -> E -> M A) -> M (A -> E -> M A)))
  (r : A -> E -> M A) (initial : A) (xs : list E) : M A :=
  t <- call (compose ts) ;;
  reducer <- call (t r) ;;
  call (foldFast reducer initial xs).

End Fp.

(** The array functions written with [reduce] (the benchmark's slow path;
    the test-suite composes them with [compose]). *)
Module Naive.
Section Naive.

Context {St : Type}.

(** [const map = (fn) => (xs) => xs.reduce((acc, x) => [...acc, fn(x)], []);] *)
Definition map {E E2} (fn : E -> M St E2) (xs : list E) : M St (list E2) :=
  reduce (fun acc x => y <- call (fn x) ;; ret (acc ++ [y])) [] xs.

(** [const filter = (predicate) => (xs) => xs.reduce(
      (acc, x) => (predicate(x) ? [...acc, x] : acc), []);] *)
Definition filter {E} (predicate : E -> M St bool) (xs : list E)
  : M St (list E) :=
  reduce (fun acc x => b <- call (predicate x) ;;
                       if b then ret (acc ++ [x]) else ret acc) [] xs.

End Naive.
End Naive.

(** ** Reference computations, as the specification words them *)

(** "applying [f] to every element, discarding elements failing [p], then
    summing": three separate traversals. *)
Definition reference_map_filter_sum (f : Z -> Z) (p : Z -> bool) (xs : list Z)
  : Z :=
  fold_left Z.add (filter p (map f xs)) 0%Z.

(** "[t1 o t2 o ... o tn] applied to the eventual terminal reducer": the
    direct expression [t1(t2(...tn(r)...))], innermost call first. *)
Definition nested_application {St A} (ts : list (A -> M St A)) (r : A)
  : M St A :=
  foldlM (fun y t => call (t y)) (rev ts) r.

(** The closure [compose(t, t', ...)] evaluates to: every callback of
    [reduceRight] wraps the function composed so far in one more arrow
    function, so the inner stages run in nested frames. *)
Fixpoint composed {St A} (t : A -> M St A) (ts : list (A -> M St A))
  : A -> M St A :=
  match ts with
  | [] => t
  | t' :: ts' => fun args => y <- call (composed t' ts' args) ;; call (t y)
  end.

(** A downstream reducer that records how often it is invoked. *)
Definition count_calls {A E} (r : A -> E -> A) : A -> E -> M nat A :=
  fun acc x => _ <- modify S ;; ret (r acc x).

(** A transform that records how often it is evaluated. *)
Definition count_evals {E E2} (f : E -> E2) : E -> M nat E2 :=
  fun x => _ <- modify S ;; ret (f x).

(** A reducer that logs the elements it is called with, in order. *)
Definition log_calls {A E} (r : A -> E -> A) : A -> E -> M (list E) A :=
  fun acc x => _ <- modify (fun l => l ++ [x]) ;; ret (r acc x).

(** A transform that logs the arguments it is evaluated at, in order. *)
Definition log_evals {E E2} (f : E -> E2) : E -> M (list E) E2 :=
  fun x => _ <- modify (fun l => l ++ [x]) ;; ret (f x).

(** ** The remaining functions of [fp.js] and the benchmark rows *)

(** Values of the benchmark pipelines, which pass arrays and numbers through
    the same list of functions. *)
Inductive value : Type :=
| VNum (n : Z)
| VArr (xs : list Z).

Section FpRest.

Context {St : Type}.

Local Abbreviation M := (M St).

(** [const mapFast = (fn) => (xs) => {
      const newXs = [];
      for (let i = 0; i < xs.length; i++) { newXs.push(fn(xs[i])); }
      return newXs; };] *)
Equations? mapFast_loop {E E2} (fn : E -> M E2) (xs : list E) (i : nat)
  (newXs : list E2) : M (list E2) by wf (length xs - i) lt :=
  mapFast_loop fn xs i newXs with inspect (nth_error xs i) := {
    | exist _ (Some x) _ =>
        y <- call (fn x) ;; mapFast_loop fn xs (S i) (newXs ++ [y])
    | exist _ None _ => ret newXs }.
Proof.
  assert (i < length xs) by (apply nth_error_Some; congruence). lia.
Qed.

Definition mapFast {E E2} (fn : E -> M E2) (xs : list E) : M (list E2) :=
  mapFast_loop fn xs 0 [].

(** [const filterFast = (predicate) => (xs) => {
      const newXs = [];
      for (let i = 0; i < xs.length; i++) {
        if (predicate(xs[i])) newXs.push(xs[i]);
      }
      return newXs; };] *)
Equations? filterFast_loop {E} (predicate : E -> M bool) (xs : list E)
  (i : nat) (newXs : list E) : M (list E) by wf (length xs - i) lt :=
  filterFast_loop predicate xs i newXs with inspect (nth_error xs i) := {
    | exist _ (Some x) _ =>
        b <- call (predicate x) ;;
        filterFast_loop predicate xs (S i) (if b then newXs ++ [x] else newXs)
    | exist _ None _ => ret newXs }.
Proof.
  assert (i < length xs) by (apply nth_error_Some; congruence). lia.
Qed.

Definition filterFast {E} (predicate : E -> M bool) (xs : list E)
  : M (list E) :=
  filterFast_loop predicate xs 0 [].

(** [Array.prototype.map]: the callback is called on the elements in
    ascending index order and its results are collected. *)
Definition array_map {E E2} (callbackfn : E -> M E2) (arr : list E)
  : M (list E2) :=
  foldlM (fun acc x => y <- call (callbackfn x) ;; ret (acc ++ [y])) arr [].

(** [Array.prototype.filter]: the elements for which the callback returns
    true are collected, in order. *)
Definition array_filter {E} (callbackfn : E -> M bool) (arr : list E)
  : M (list E) :=
  foldlM (fun acc x => b <- call (callbackfn x) ;;
                       ret (if b then acc ++ [x] else acc)) arr [].






Definition foldFast_v (fn : Z -> Z -> M Z) (initial : Z) (v : value)
  : M value :=
  match v with
  | VArr xs => n <- foldFast fn initial xs ;; ret (VNum n)
  | VNum _ => ret (VNum initial)
  end.



(** The row TRANSDUCE:
    [const transduced = composeFast(rFilter(isEven), rMap(multBy10))(concat);
     return composeFast(foldFast(add, 0), transduced)(data);]
    [as_entry] is the reducer [transduced] seen as an entry of the argument
    list of [composeFast]. *)
Definition row_transduce
  (as_entry : (list Z -> Z -> M (list Z)) -> value -> M value)
  (data : list Z) : M value :=
  transduced <-
    call (composeFast [pure1 (rFilter isEven); pure1 (rMap multBy10)] concat) ;;
  call (composeFast [foldFast_v add 0%Z; as_entry transduced] (VArr data)).

(** A reducer that sums and throws at one element. *)
Definition add_unless (bad : Z) (acc x : Z) : M Z :=
  if (x =? bad)%Z then throw (Thrown 0) else ret (acc + x)%Z.

End FpRest.

(** ** The evaluation monad *)

Section MonadFacts.

Context {St : Type}.

Lemma call_S {X} (m : M St X) d s : call m (S d) s = m d s.
Proof. reflexivity. Qed.

Lemma bind_Ok {X Y} (m : M St X) (k : X -> M St Y) d s x s' :
  m d s = Ok x s' -> bind m k d s = k x d s'.
Proof. unfold bind; intros ->; reflexivity. Qed.

Lemma bind_ret_r {X} (m : M St X) d s : bind m ret d s = m d s.
Proof. unfold bind, ret; destruct (m d s); reflexivity. Qed.

Lemma foldlM_app {A E} (step : A -> E -> M St A) xs ys acc d s :
  foldlM step (xs ++ ys) acc d s
  = bind (foldlM step xs acc) (foldlM step ys) d s.
Proof.
  revert acc s; induction xs as [|x xs IH]; intros acc s; simpl.
  - reflexivity.
  - unfold bind. destruct (step acc x d s) as [acc' s'|e s'].
    + rewrite IH. reflexivity.
    + reflexivity.
Qed.

(** A step that always returns normally, without touching the state,
    makes the monadic fold a plain [fold_left]. *)
Lemma foldlM_pure_step {A E} (step : A -> E -> M St A) (g : A -> E -> A) d :
  (forall acc x s, step acc x d s = Ok (g acc x) s) ->
  forall xs acc s, foldlM step xs acc d s = Ok (fold_left g xs acc) s.
Proof.
  intros Hstep; induction xs as [|x xs IH]; intros acc s; simpl.
  - reflexivity.
  - rewrite (bind_Ok _ _ _ _ (Hstep acc x s)). apply IH.
Qed.

End MonadFacts.

(** ** The loops of [foldFast] and [composeFast] *)

Section Loops.

Context {St : Type}.

Lemma skipn_nth_error_Some {E} (xs : list E) i x :
  nth_error xs i = Some x -> skipn i xs = x :: skipn (S i) xs.
Proof.
  revert i; induction xs as [|y ys IH]; intros [|i] H; simpl in *;
    try discriminate.
  - congruence.
  - now apply IH.
Qed.

Lemma skipn_nth_error_None {E} (xs : list E) i :
  nth_error xs i = None -> skipn i xs = [].
Proof.
  intros H. apply skipn_all2. now apply nth_error_None.
Qed.

Lemma firstn_S_nth_error {E} (xs : list E) i x :
  nth_error xs i = Some x -> firstn (S i) xs = firstn i xs ++ [x].
Proof.
  revert i; induction xs as [|y ys IH]; intros [|i] H; simpl in *;
    try discriminate.
  - congruence.
  - f_equal. now apply IH.
Qed.

(** The cursor loop of [foldFast], started at index [i], is the monadic
    left fold over the elements from index [i] on. *)
Lemma foldFast_loop_skipn {A E} (fn : A -> E -> M St A) xs i initial d s :
  foldFast_loop fn xs i initial d s
  = foldlM (fun acc x => call (fn acc x)) (skipn i xs) initial d s.
Proof.
  revert d s.
  funelim (foldFast_loop fn xs i initial); intros d s;
    match goal with
    | Hx : nth_error _ _ = Some _ |- _ =>
        rewrite (skipn_nth_error_Some _ _ Hx); simpl; unfold bind;
        destruct (call (fn initial x) d s); auto
    | Hx : nth_error _ _ = None |- _ =>
        rewrite (skipn_nth_error_None _ _ Hx); reflexivity
    end.
Qed.

Lemma foldFast_foldlM {A E} (fn : A -> E -> M St A) initial xs d s :
  foldFast fn initial xs d s
  = foldlM (fun acc x => call (fn acc x)) xs initial d s.
Proof. unfold foldFast. now rewrite foldFast_loop_skipn. Qed.

Lemma composeFast_loop_SS {A} (fns : list (A -> M St A)) i result :
  composeFast_loop fns (S (S i)) result
  = match nth_error fns (S (S i)) with
    | Some f => bind (call (f result)) (composeFast_loop fns (S i))
    | None => throw TypeError
    end.
Proof. reflexivity. Qed.

(** The descending loop of [composeFast], started at index [i], applies
    the entries at [i], [i-1], ..., [2]. *)
Lemma composeFast_loop_spec {A} (fns : list (A -> M St A)) i result d s :
  i < length fns ->
  composeFast_loop fns i result d s
  = foldlM (fun y t => call (t y)) (rev (firstn (i - 1) (skipn 2 fns)))
      result d s.
Proof.
  revert result s; induction i as [|i IH]; intros result s Hi.
  - reflexivity.
  - destruct i as [|i]; [reflexivity|].
    rewrite composeFast_loop_SS.
    destruct (nth_error fns (S (S i))) as [f|] eqn:Hf.
    2:{ apply nth_error_None in Hf. lia. }
    assert (Hf' : nth_error (skipn 2 fns) i = Some f).
    { rewrite nth_error_skipn. exact Hf. }
    replace (S (S i) - 1) with (S i) by lia.
    rewrite (firstn_S_nth_error _ _ Hf'), rev_app_distr.
    cbn [rev app foldlM]. unfold bind.
    destruct (call (f result) d s) as [y s'|e s']; [|reflexivity].
    rewrite IH by lia. now replace (S i - 1) with i by lia.
Qed.

(** [composeFast(f0, f1, f2, ..., fn)] runs [f0], then [fn], ..., [f2]. *)
Lemma composeFast_cons2 {A} (f0 f1 : A -> M St A) rest args d s :
  composeFast (f0 :: f1 :: rest) args d s
  = bind (call (f0 args))
      (fun result => foldlM (fun y t => call (t y)) (rev rest) result) d s.
Proof.
  unfold composeFast. cbn [nth_error]. unfold bind.
  destruct (call (f0 args) d s) as [y s'|e s']; [|reflexivity].
  rewrite composeFast_loop_spec by (simpl; lia).
  cbn [length skipn].
  replace (S (S (length rest)) - 1 - 1) with (length rest) by lia.
  now rewrite firstn_all.
Qed.

Lemma composeFast_single {A} (f0 : A -> M St A) args d s :
  composeFast [f0] args d s = call (f0 args) d s.
Proof.
  unfold composeFast. cbn. unfold bind.
  destruct (call (f0 args) d s); reflexivity.
Qed.

End Loops.

(** ** [reduceRight] and [compose] *)

Section Compose.

Context {St : Type}.

Lemma reduceRight_nil {T} (cb : T -> T -> M St T) d s :
  reduceRight cb [] d s = Err TypeError s.
Proof. reflexivity. Qed.

(** With at least two entries the leftmost one is combined last. *)
Lemma reduceRight_cons {T} (cb : T -> T -> M St T) t t' ts d s :
  reduceRight cb (t :: t' :: ts) d s
  = bind (reduceRight cb (t' :: ts)) (fun acc => call (cb acc t)) d s.
Proof.
  unfold reduceRight.
  change (rev (t :: t' :: ts)) with (rev (t' :: ts) ++ [t]).
  destruct (rev (t' :: ts)) as [|last rest] eqn:Hrev.
  - apply (f_equal (@length T)) in Hrev.
    rewrite length_rev in Hrev. discriminate.
  - cbn [app]. rewrite foldlM_app. unfold bind.
    destruct (foldlM _ rest last d s) as [acc s'|e s']; [|reflexivity].
    cbn [foldlM]. apply bind_ret_r.
Qed.

(** With a frame for the callback, [compose] of a non-empty list returns
    the nest of arrow functions [composed]. *)
Lemma compose_cons {A} (t : A -> M St A) ts d s :
  compose (t :: ts) (S d) s = Ok (composed t ts) s.
Proof.
  revert t; induction ts as [|t' ts IH]; intros t.
  - reflexivity.
  - unfold compose in *. rewrite reduceRight_cons.
    rewrite (bind_Ok _ _ _ _ (IH t')). reflexivity.
Qed.

Lemma compose_single {A} (t : A -> M St A) d s :
  compose [t] d s = Ok t s.
Proof. reflexivity. Qed.

(** For stages that only build a closure, the nest computes
    [T1 (T2 (... (Tn r)))]; the innermost stage runs [n - 1] frames
    deep. *)
Lemma composed_pure {A} (T : A -> A) (Ts : list (A -> A)) r d (s : St) :
  length Ts <= d ->
  composed (pure1 T) (map pure1 Ts) r d s
  = Ok (T (fold_right (fun T' r' => T' r') r Ts)) s.
Proof.
  revert T d; induction Ts as [|T' Ts IH]; intros T d Hd.
  - reflexivity.
  - destruct d as [|d]; [simpl in Hd; lia|].
    cbn [map composed fold_right].
    unfold bind. rewrite call_S, IH by (simpl in Hd; lia). reflexivity.
Qed.

(** The direct expression [t1(t2(...tn(r)...))] for such stages. *)
Lemma nested_application_pure {A} (Ts : list (A -> A)) (r : A) d (s : St) :
  nested_application (map pure1 Ts) r (S d) s
  = Ok (fold_right (fun T' r' => T' r') r Ts) s.
Proof.
  unfold nested_application.
  induction Ts as [|T Ts IH].
  - reflexivity.
  - cbn [map rev fold_right]. rewrite foldlM_app.
    rewrite (bind_Ok _ _ _ _ IH). reflexivity.
Qed.

(** Order of [compose]: for a non-empty list of stages, the composed
    function applied to [r] is [t1(t2(...tn(r)...))]. *)
Lemma compose_order {A} (T : A -> A) (Ts : list (A -> A)) (r : A) d (s : St) :
  length Ts <= d ->
  bind (compose (map pure1 (T :: Ts))) (fun t => call (t r)) (S d) s
  = nested_application (map pure1 (T :: Ts)) r (S d) s.
Proof.
  intros Hd. rewrite nested_application_pure.
  cbn [map]. rewrite (bind_Ok _ _ _ _ (compose_cons _ _ _ _)).
  rewrite call_S. now apply composed_pure.
Qed.

End Compose.

(** ** The map/filter/sum pipeline *)

Section Pipeline.

Context {St : Type}.

Local Open Scope Z_scope.

Lemma fold_left_filter_map (f : Z -> Z) (p : Z -> bool) xs acc :
  fold_left (fun a x => if p (f x) then a + f x else a) xs acc
  = fold_left Z.add (filter p (map f xs)) acc.
Proof.
  revert acc; induction xs as [|x xs IH]; intros acc; simpl.
  - reflexivity.
  - destruct (p (f x)); simpl; apply IH.
Qed.

Lemma fold_left_add_map (f : Z -> Z) xs acc :
  fold_left (fun a x => a + f x) xs acc = fold_left Z.add (map f xs) acc.
Proof.
  revert acc; induction xs as [|x xs IH]; intros acc; simpl.
  - reflexivity.
  - apply IH.
Qed.

(** One step of the fused reducer [rMap(f)(rFilter(p)(add))]. *)
Lemma fused_step (f : Z -> Z) (p : Z -> bool) acc x d (s : St) :
  rMap (pure1 f) (rFilter (pure1 p) add) acc x (S (S d)) s
  = Ok (if p (f x) then acc + f x else acc) s.
Proof.
  unfold rMap, rFilter, bind, call, pure1, ret, add.
  destruct (p (f x)); reflexivity.
Qed.

(** Folding the fused reducer is map, then filter, then sum. *)
Lemma foldFast_fused (f : Z -> Z) (p : Z -> bool) xs initial d (s : St) :
  foldFast (rMap (pure1 f) (rFilter (pure1 p) add)) initial xs (S (S (S d))) s
  = Ok (fold_left Z.add (filter p (map f xs)) initial) s.
Proof.
  rewrite foldFast_foldlM, <- fold_left_filter_map.
  apply foldlM_pure_step. intros acc x s'.
  rewrite call_S. apply fused_step.
Qed.

(** With [compose] the pipeline [mapStep(f), filterStep(p)] is fused
    correctly. *)
Lemma transduce_fusion (f : Z -> Z) (p : Z -> bool) xs (d : nat) (s : St) :
  transduce [pure1 (rMap (pure1 f)); pure1 (rFilter (pure1 p))] add 0 xs
    (4 + d)%nat s
  = Ok (reference_map_filter_sum f p xs) s.
Proof.
  unfold transduce, reference_map_filter_sum.
  cbn [Nat.add]. unfold bind.
  rewrite call_S, compose_cons. cbv beta iota.
  assert (Hred : call (St := St) (composed (pure1 (rMap (pure1 f)))
                         [pure1 (rFilter (pure1 p))] (add (St := St)))
                   (S (S (S (S d)))) s
                 = Ok (rMap (pure1 f) (rFilter (pure1 p) add)) s)
    by reflexivity.
  rewrite Hred, call_S. apply foldFast_fused.
Qed.

(** With [composeFast] the second stage is lost: every mapped element is
    summed. *)
Lemma transduceFast_drops_filter (f : Z -> Z) (p : Z -> bool) xs (d : nat)
  (s : St) :
  transduceFast [pure1 (rMap (pure1 f)); pure1 (rFilter (pure1 p))] add 0 xs
    (3 + d)%nat s
  = Ok (fold_left Z.add (map f xs) 0) s.
Proof.
  unfold transduceFast. cbn [Nat.add]. unfold bind.
  assert (Hred : call (St := St) (composeFast [pure1 (rMap (pure1 f));
                                    pure1 (rFilter (pure1 p))]
                         (add (St := St))) (S (S (S d))) s
                 = Ok (rMap (pure1 f) add) s)
    by reflexivity.
  rewrite Hred, call_S, foldFast_foldlM, <- fold_left_add_map.
  apply foldlM_pure_step. intros acc x s'. reflexivity.
Qed.

(** With [compose] the pipeline [filterStep(p), mapStep(f)] filters the
    raw elements and maps the survivors. *)
Lemma transduce_filter_then_map (f : Z -> Z) (p : Z -> bool) xs (d : nat)
  (s : St) :
  transduce [pure1 (rFilter (pure1 p)); pure1 (rMap (pure1 f))] add 0 xs
    (4 + d)%nat s
  = Ok (fold_left (fun a x => if p x then a + f x else a) xs 0) s.
Proof.
  unfold transduce. cbn [Nat.add]. unfold bind.
  rewrite call_S, compose_cons. cbv beta iota.
  assert (Hred : call (St := St) (composed (pure1 (rFilter (pure1 p)))
                         [pure1 (rMap (pure1 f))] (add (St := St)))
                   (S (S (S (S d)))) s
                 = Ok (rFilter (pure1 p) (rMap (pure1 f) add)) s)
    by reflexivity.
  rewrite Hred, call_S, foldFast_foldlM.
  apply foldlM_pure_step. intros acc x s'.
  unfold rFilter, rMap, bind, call, pure1, ret, add.
  destruct (p x); reflexivity.
Qed.

End Pipeline.

(** ** Stack usage *)

Section Stack.

Context {St : Type}.

Lemma fits_call {X} (m : M St X) k : fits k m -> fits (S k) (call m).
Proof.
  intros Hm [|d] s Hd; [lia|]. rewrite call_S. apply Hm. lia.
Qed.

Lemma fits_foldlM {A E} (step : A -> E -> M St A) k :
  (forall acc x, fits k (step acc x)) ->
  forall xs acc, fits k (foldlM step xs acc).
Proof.
  intros Hstep xs; induction xs as [|x xs IH]; intros acc d s Hd; simpl.
  - exact (fun H => H).
  - unfold bind. specialize (Hstep acc x d s Hd).
    destruct (step acc x d s) as [acc' s'|e s'].
    + now apply IH.
    + exact Hstep.
Qed.

(** [foldFast] needs one frame more than its reducer, whatever the
    length of the input. *)
Lemma fits_foldFast {A E} (fn : A -> E -> M St A) k :
  (forall acc x, fits k (fn acc x)) ->
  forall initial xs, fits (S k) (foldFast fn initial xs).
Proof.
  intros Hfn initial xs d s Hd. rewrite foldFast_foldlM.
  refine (@fits_foldlM A E (fun acc x => call (fn acc x)) (S k) _
            xs initial d s Hd).
  intros acc x. apply fits_call, Hfn.
Qed.

(** The recursive [fold] of the benchmark nests one frame per element:
    it overflows as soon as the input is longer than the free stack. *)
Lemma fold_overflows {A E} (undefined : E) (r : A -> E -> A) xs :
  forall initial d (s : St),
    xs <> [] -> d < length xs ->
    fold undefined (pure2 r) initial xs d s = Err StackOverflow s.
Proof.
  induction xs as [|x tail IH]; intros initial d s Hne Hd; [congruence|].
  destruct d as [|d]; [reflexivity|].
  cbn [fold hd]. unfold bind. rewrite call_S. cbn [pure2 ret].
  destruct tail as [|x' tail']; [simpl in Hd; lia|].
  cbn [length Nat.ltb Nat.leb]. rewrite call_S.
  apply IH; [discriminate | simpl in *; lia].
Qed.

(** With enough stack the recursive [fold] is the same left fold. *)
Lemma fold_enough_stack {A E} (undefined : E) (r : A -> E -> A) xs :
  forall initial d (s : St),
    xs <> [] -> length xs <= d ->
    fold undefined (pure2 r) initial xs d s = Ok (fold_left r xs initial) s.
Proof.
  induction xs as [|x tail IH]; intros initial d s Hne Hd; [congruence|].
  destruct d as [|d]; [simpl in Hd; lia|].
  cbn [fold hd]. unfold bind. rewrite call_S. cbn [pure2 ret].
  destruct tail as [|x' tail'].
  - reflexivity.
  - cbn [length Nat.ltb Nat.leb]. rewrite call_S.
    cbn [fold_left]. apply IH; [discriminate | simpl in *; lia].
Qed.

End Stack.

(** ** The repository's test-suite, replayed on the embedding *)

Section Tests.

Local Open Scope Z_scope.

Example test_foldFast :
  call (foldFast add 0 [1; 2; 3]) 8%nat tt = Ok 6 tt.
Proof. reflexivity. Qed.

(** The first argument stands for [undefined]; it is only read on an empty
    array. *)
Example test_fold :
  call (fold 0 add 0 [1; 2; 3]) 8%nat tt = Ok 6 tt.
Proof. reflexivity. Qed.

Example test_compose_1 :
  bind (call (compose [Naive.map add1; Naive.map add1]))
    (fun composed_fn => call (composed_fn [1; 2; 3])) 8%nat tt
  = Ok [3; 4; 5] tt.
Proof. reflexivity. Qed.

Example test_compose_2 :
  bind (call (compose [Naive.map add1; Naive.filter isEven; Naive.map add1]))
    (fun composed_fn => call (composed_fn [1; 2; 3])) 8%nat tt
  = Ok [3; 5] tt.
Proof. reflexivity. Qed.

Example test_mapTranduce :
  call (reduce (rMap add1 concat) [] [1; 2; 3]) 8%nat tt = Ok [2; 3; 4] tt.
Proof. reflexivity. Qed.

Example test_filterTranduce :
  call (reduce (rFilter isEven concat) [] [1; 2; 3]) 8%nat tt = Ok [2] tt.
Proof. reflexivity. Qed.

End Tests.

(** ** Properties stated by the specification *)

(** C1, on the code: with [composeFast] as the composer the filter stage is
    lost.  On [[2]] with [add1] and [isEven] the fold returns 3, while
    mapping, filtering and summing gives 0. *)
Theorem fusion_broken_by_composeFast St (d : nat) (s : St) :
  transduceFast [pure1 (rMap add1); pure1 (rFilter isEven)] add 0%Z [2]%Z
    (3 + d) s = Ok 3%Z s
  /\ reference_map_filter_sum (fun x => x + 1)%Z (fun x => Z.rem x 2 =? 0)%Z
       [2]%Z = 0%Z.
Proof.
  split.
  - exact (transduceFast_drops_filter (fun x => x + 1)%Z
             (fun x => Z.rem x 2 =? 0)%Z [2]%Z d s).
  - reflexivity.
Qed.

(** C2, on the code: [composeFast(t1, t2, t3)(r)] is [t3(t1(r))], not
    [t1(t2(t3(r)))].  With [t1 = rMap(add1)], [t2 = rFilter(isEven)],
    [t3 = rMap(multBy10)] and [r = add], the composed reducer maps
    [(0, 1)] to 11, the nested application to 20. *)
Theorem composeFast_order_broken St (d : nat) (s : St) :
  let ts :=
    [pure1 (rMap add1); pure1 (rFilter isEven); pure1 (rMap multBy10)] in
  exists fast nested : Z -> Z -> M St Z,
    composeFast ts add (S d) s = Ok fast s
    /\ nested_application ts add (S d) s = Ok nested s
    /\ fast 0%Z 1%Z (3 + d) s = Ok 11%Z s
    /\ nested 0%Z 1%Z (3 + d) s = Ok 20%Z s.
Proof.
  exists (rMap multBy10 (rMap add1 add)),
    (rMap add1 (rFilter isEven (rMap multBy10 add))).
  split; [|split; [|split]]; reflexivity.
Qed.

(** C3. [composeFast(f, g)(x)] is the call [f(x)]: [g] is never applied.
    In general [composeFast(f0, f1, ..., fn)] runs [f0] first and then
    [fn], ..., [f2] in descending index order, and [f1] does not occur in
    the result; the benchmark's [composeFast(rFilter(isEven),
    rMap(multBy10))(concat)] is [rFilter(isEven)(concat)], the map stage
    being dropped. *)
Theorem composeFast_skips_second :
  (forall St A (f g : A -> M St A) x d s,
      composeFast [f; g] x d s = call (f x) d s)
  /\ (forall St A (f0 f1 : A -> M St A) rest x d s,
        composeFast (f0 :: f1 :: rest) x d s
        = bind (call (f0 x))
            (fun result => foldlM (fun y t => call (t y)) (rev rest) result)
            d s)
  /\ (forall St d (s : St),
        composeFast [pure1 (rFilter isEven); pure1 (rMap multBy10)]
          (concat (St := St) (E := Z)) (S d) s
        = Ok (rFilter isEven concat) s).
Proof.
  split; [|split].
  - intros. rewrite composeFast_cons2. cbn [rev foldlM]. apply bind_ret_r.
  - intros. apply composeFast_cons2.
  - intros. reflexivity.
Qed.

(** C4. [foldFast] is stack safe: whatever the input, the reducer and the
    initial accumulator, it needs one frame more than a single reducer call
    needs, independently of the length of the input.  For the fused
    map+filter+sum reducer three free frames are enough for every input,
    however long (10,000,000 elements or more), and the fold returns the
    final accumulator. *)
Theorem foldFast_stack_safe St A E (fn : A -> E -> M St A) (k : nat) :
  (forall acc x, fits k (fn acc x)) ->
  (forall initial xs, fits (S k) (foldFast fn initial xs))
  /\ (forall (f : Z -> Z) (p : Z -> bool) (xs : list Z) d (s : St),
        foldFast (rMap (pure1 f) (rFilter (pure1 p) add)) 0%Z xs (3 + d) s
        = Ok (reference_map_filter_sum f p xs) s).
Proof.
  intros Hfn. split.
  - now apply fits_foldFast.
  - intros. apply foldFast_fused.
Qed.

Lemma foldFast_stack_safe_witness :
  (forall acc x, fits 0 (add (St := unit) acc x))
  /\ fits 1 (foldFast (add (St := unit)) 0%Z [1; 2; 3]%Z)
  /\ foldFast (rMap multBy10 (rFilter isEven add)) 0%Z [1; 2; 3; 4; 5]%Z 3 tt
     = Ok 150%Z tt.
Proof.
  assert (Hadd : forall acc x, fits 0 (add (St := unit) acc x)).
  { intros acc x d s _ H. exact H. }
  split; [exact Hadd|].
  destruct (@foldFast_stack_safe unit Z Z add 0 Hadd) as [Hfits Hpipe].
  split.
  - apply Hfits.
  - exact (Hpipe (fun x => x * 10)%Z (fun x => Z.rem x 2 =? 0)%Z
             [1; 2; 3; 4; 5]%Z 0 tt).
Defined.

(** C5. [rFilter(p)(r)(acc, x)] is [r(acc, x)] when [p(x)] is true and the
    unchanged [acc] when [p(x)] is false; in the latter case the state is
    the one [p] left, whatever [r] would have done.  With a downstream
    reducer that counts its invocations the counter moves exactly for the
    elements satisfying [p], for one element and along a whole fold. *)
Theorem rFilter_contract :
  (forall St A E (predicate : E -> M St bool) (reducer : A -> E -> M St A)
      acc x d s,
      rFilter predicate reducer acc x d s
      = match call (predicate x) d s with
        | Ok true s' => call (reducer acc x) d s'
        | Ok false s' => Ok acc s'
        | Err e s' => Err e s'
        end)
  /\ (forall A E (p : E -> bool) (r : A -> E -> A) acc x d n,
        rFilter (pure1 p) (count_calls r) acc x (S d) n
        = Ok (if p x then r acc x else acc) (if p x then S n else n))
  /\ (forall A E (p : E -> bool) (r : A -> E -> A) initial xs d n,
        foldFast (rFilter (pure1 p) (count_calls r)) initial xs (2 + d) n
        = Ok (fold_left r (filter p xs) initial) (length (filter p xs) + n)).
Proof.
  split; [|split].
  - intros. unfold rFilter, bind.
    destruct (call (predicate x) d s) as [[|] s'|e s']; reflexivity.
  - intros. unfold rFilter, bind, call, pure1, ret.
    destruct (p x); reflexivity.
  - intros. rewrite foldFast_foldlM. revert initial n.
    induction xs as [|x xs IH]; intros initial n; [reflexivity|].
    cbn [foldlM filter]. unfold bind at 1.
    assert (Hstep :
             call (rFilter (pure1 p) (count_calls r) initial x) (2 + d) n
             = Ok (if p x then r initial x else initial)
                 (if p x then S n else n)).
    { unfold rFilter, bind, call, pure1, ret. cbn [Nat.add].
      destruct (p x); reflexivity. }
    rewrite Hstep, IH. destruct (p x); cbn [fold_left length]; f_equal; lia.
Qed.

(** C6. [rMap(f)(r)(acc, x)] is [r(acc, f(x))]: it fails only if [f] or
    [r] does.  A transform that counts its evaluations is evaluated exactly
    once per element, and along a fold it is evaluated at the elements in
    their input order, the downstream reducer receiving the images in that
    order. *)
Theorem rMap_contract :
  (forall St A E E2 (fn : E -> M St E2) (reducer : A -> E2 -> M St A)
      acc x d s,
      rMap fn reducer acc x d s
      = match call (fn x) d s with
        | Ok y s' => call (reducer acc y) d s'
        | Err e s' => Err e s'
        end)
  /\ (forall A E E2 (f : E -> E2) (r : A -> E2 -> A) acc x d n,
        rMap (count_evals f) (pure2 r) acc x (S d) n = Ok (r acc (f x)) (S n))
  /\ (forall A E E2 (f : E -> E2) (r : A -> E2 -> A) initial xs d l,
        foldFast (rMap (log_evals f) (pure2 r)) initial xs (2 + d) l
        = Ok (fold_left (fun acc x => r acc (f x)) xs initial) (l ++ xs)).
Proof.
  split; [|split].
  - intros. unfold rMap, bind.
    destruct (call (fn x) d s) as [y s'|e s']; reflexivity.
  - intros. reflexivity.
  - intros. rewrite foldFast_foldlM. revert initial l.
    induction xs as [|x xs IH]; intros initial l.
    + cbn [foldlM fold_left]. now rewrite app_nil_r.
    + cbn [foldlM fold_left]. unfold bind at 1.
      assert (Hstep :
               call (rMap (log_evals f) (pure2 r) initial x) (2 + d) l
               = Ok (r initial (f x)) (l ++ [x])) by reflexivity.
      rewrite Hstep, IH, <- app_assoc. reflexivity.
Qed.

(** C7, as stated, fails: with the empty list neither composer gives a
    function that behaves like the reducer it is applied to. *)
Lemma empty_pipeline_not_identity :
  compose (St := unit) (A := Z -> Z -> M unit Z) [] 1 tt = Err TypeError tt
  /\ composeFast [] (add (St := unit)) 1 tt = Err TypeError tt
  /\ transduceFast [] add 0%Z [1; 2; 3]%Z 4 tt
     <> call (foldFast add 0%Z [1; 2; 3]%Z) 4 tt
  /\ transduce [] add 0%Z [1; 2; 3]%Z 4 tt
     <> call (foldFast add 0%Z [1; 2; 3]%Z) 4 tt.
Proof.
  split; [|split; [|split]].
  - reflexivity.
  - reflexivity.
  - discriminate.
  - discriminate.
Qed.

(** C7, as the code has it. Composing no transformer at all fails with a
    [TypeError]: [compose()] when it is called, [composeFast()] when the
    function it returns is applied to a reducer.  The shortest pipeline is
    the one-element list [[t]], which composes to [t] itself. *)
Theorem empty_pipeline_fails :
  (forall St A d (s : St),
      compose (A := A) [] d s = Err TypeError s)
  /\ (forall St A (r : A) d (s : St),
        composeFast [] r d s = Err TypeError s)
  /\ (forall St A (t : A -> M St A) d s,
        compose [t] d s = Ok t s)
  /\ (forall St A (t : A -> M St A) r d s,
        composeFast [t] r d s = call (t r) d s).
Proof.
  split; [|split; [|split]]; intros.
  - apply reduceRight_nil.
  - reflexivity.
  - apply compose_single.
  - apply composeFast_single.
Qed.

(** C8. The concrete scenario: input [[1,2,3,4,5]], stages [mapStep(x =>
    x*10)] and [filterStep(x => x % 2 === 0)], sum reducer, initial
    accumulator 0: the fold returns 150, with [composeFast] as well as with
    [compose] as the composer. *)
Theorem scenario_150 St (d : nat) (s : St) :
  transduceFast [pure1 (rMap multBy10); pure1 (rFilter isEven)] add 0%Z
    [1; 2; 3; 4; 5]%Z (3 + d) s = Ok 150%Z s
  /\ transduce [pure1 (rMap multBy10); pure1 (rFilter isEven)] add 0%Z
       [1; 2; 3; 4; 5]%Z (4 + d) s = Ok 150%Z s.
Proof.
  split.
  - exact (transduceFast_drops_filter (fun x => x * 10)%Z
             (fun x => Z.rem x 2 =? 0)%Z [1; 2; 3; 4; 5]%Z d s).
  - exact (transduce_fusion (fun x => x * 10)%Z
             (fun x => Z.rem x 2 =? 0)%Z [1; 2; 3; 4; 5]%Z d s).
Qed.

(** C9. [foldFast] visits the elements once, from left to right, calling
    the reducer at each and returning the last accumulator: it is the left
    fold of the reducer over the input.  On the empty array it returns the
    initial accumulator without calling anything; for a reducer without
    side effects the result is [fold_left], and a reducer that logs its
    elements has logged exactly the input, in order. *)
Theorem foldFast_left_fold :
  (forall St A E (fn : A -> E -> M St A) initial xs d s,
      foldFast fn initial xs d s
      = foldlM (fun acc x => call (fn acc x)) xs initial d s)
  /\ (forall St A E (fn : A -> E -> M St A) initial d s,
        foldFast fn initial [] d s = Ok initial s)
  /\ (forall St A E (r : A -> E -> A) initial xs d (s : St),
        foldFast (pure2 r) initial xs (S d) s = Ok (fold_left r xs initial) s)
  /\ (forall A E (r : A -> E -> A) initial xs d l,
        foldFast (log_calls r) initial xs (S d) l
        = Ok (fold_left r xs initial) (l ++ xs)).
Proof.
  split; [|split; [|split]].
  - intros. apply foldFast_foldlM.
  - intros. now rewrite foldFast_foldlM.
  - intros. rewrite foldFast_foldlM.
    apply foldlM_pure_step. reflexivity.
  - intros. rewrite foldFast_foldlM. revert initial l.
    induction xs as [|x xs IH]; intros initial l.
    + cbn [foldlM fold_left]. now rewrite app_nil_r.
    + cbn [foldlM fold_left]. unfold bind at 1.
      assert (Hstep : call (log_calls r initial x) (S d) l
                      = Ok (r initial x) (l ++ [x])) by reflexivity.
      rewrite Hstep, IH, <- app_assoc. reflexivity.
Qed.

(** C10. Order sensitivity: on [[1,2,3]] with [multBy10] and [isEven], the
    pipeline [filterStep, mapStep] sums to 20 and the pipeline [mapStep,
    filterStep] sums to 60. *)
Theorem order_sensitivity St :
  exists (xs : list Z) (f : Z -> M St Z) (p : Z -> M St bool) (a b : Z),
    a <> b
    /\ forall d s,
        transduce [pure1 (rFilter p); pure1 (rMap f)] add 0%Z xs (4 + d) s
        = Ok a s
        /\ transduce [pure1 (rMap f); pure1 (rFilter p)] add 0%Z xs (4 + d) s
           = Ok b s.
Proof.
  exists [1; 2; 3]%Z, multBy10, isEven, 20%Z, 60%Z.
  split; [discriminate|]. intros d s. split.
  - exact (transduce_filter_then_map (fun x => x * 10)%Z
             (fun x => Z.rem x 2 =? 0)%Z [1; 2; 3]%Z d s).
  - exact (transduce_fusion (fun x => x * 10)%Z
             (fun x => Z.rem x 2 =? 0)%Z [1; 2; 3]%Z d s).
Qed.

(** ** Further properties of the code *)

(** *** Loops of the fast array functions *)

Section FastLoops.

Context {St : Type}.


(** A step that returns normally and updates the state by [h]. *)
Lemma foldlM_state_step {A E} (step : A -> E -> M St A) (g : A -> E -> A)
  (h : St -> E -> St) d :
  (forall acc x s, step acc x d s = Ok (g acc x) (h s x)) ->
  forall xs acc s,
    foldlM step xs acc d s = Ok (fold_left g xs acc) (fold_left h xs s).
Proof.
  intros Hstep; induction xs as [|x xs IH]; intros acc s; simpl.
  - reflexivity.
  - rewrite (bind_Ok _ _ _ _ (Hstep acc x s)). apply IH.
Qed.

Lemma mapFast_loop_skipn {E E2} (fn : E -> M St E2) xs i newXs d s :
  mapFast_loop fn xs i newXs d s
  = foldlM (fun acc x => y <- call (fn x) ;; ret (acc ++ [y])) (skipn i xs)
      newXs d s.
Proof.
  revert d s.
  funelim (mapFast_loop fn xs i newXs); intros d s;
    match goal with
    | Hx : nth_error _ _ = Some _ |- _ =>
        rewrite (skipn_nth_error_Some _ _ Hx); cbn [foldlM]; unfold bind;
        destruct (call (fn x) d s); cbn [ret]; auto
    | Hx : nth_error _ _ = None |- _ =>
        rewrite (skipn_nth_error_None _ _ Hx); reflexivity
    end.
Qed.

(** [mapFast] is the loop of [Array.prototype.map]. *)
Lemma mapFast_array_map {E E2} (fn : E -> M St E2) xs d s :
  mapFast fn xs d s = array_map fn xs d s.
Proof. unfold mapFast, array_map. now rewrite mapFast_loop_skipn. Qed.

Lemma filterFast_loop_skipn {E} (predicate : E -> M St bool) xs i newXs d s :
  filterFast_loop predicate xs i newXs d s
  = foldlM (fun acc x => b <- call (predicate x) ;;
                         ret (if b then acc ++ [x] else acc)) (skipn i xs)
      newXs d s.
Proof.
  revert d s.
  funelim (filterFast_loop predicate xs i newXs); intros d s;
    match goal with
    | Hx : nth_error _ _ = Some _ |- _ =>
        rewrite (skipn_nth_error_Some _ _ Hx); cbn [foldlM]; unfold bind;
        destruct (call (predicate x) d s); cbn [ret]; auto
    | Hx : nth_error _ _ = None |- _ =>
        rewrite (skipn_nth_error_None _ _ Hx); reflexivity
    end.
Qed.

(** [filterFast] is the loop of [Array.prototype.filter]. *)
Lemma filterFast_array_filter {E} (predicate : E -> M St bool) xs d s :
  filterFast predicate xs d s = array_filter predicate xs d s.
Proof. unfold filterFast, array_filter. now rewrite filterFast_loop_skipn. Qed.

Lemma fold_left_snoc_map {E E2} (f : E -> E2) xs acc :
  fold_left (fun a x => a ++ [f x]) xs acc = acc ++ map f xs.
Proof.
  revert acc; induction xs as [|x xs IH]; intros acc; simpl.
  - now rewrite app_nil_r.
  - rewrite IH, <- app_assoc. reflexivity.
Qed.

Lemma fold_left_snoc_filter {E} (p : E -> bool) xs acc :
  fold_left (fun a x => if p x then a ++ [x] else a) xs acc
  = acc ++ filter p xs.
Proof.
  revert acc; induction xs as [|x xs IH]; intros acc; simpl.
  - now rewrite app_nil_r.
  - rewrite IH. destruct (p x); [rewrite <- app_assoc|]; reflexivity.
Qed.

Lemma fold_left_snoc {E} (xs l : list E) :
  fold_left (fun a x => a ++ [x]) xs l = l ++ xs.
Proof.
  rewrite (fold_left_snoc_map (fun x => x)). now rewrite map_id.
Qed.

End FastLoops.

(** *** The recursive [fold] *)

Lemma fold_cons {St A E} (undefined : E) (fn : A -> E -> M St A) initial x
  tail :
  fold undefined fn initial (x :: tail)
  = bind (call (fn initial x))
      (fun result =>
         if 0 <? length tail
         then call (fold undefined fn result tail)
         else call (fn initial x)).
Proof. reflexivity. Qed.

(** X1. On a non-empty array and with a reducer without side effects, the
    recursive [fold] needs one stack frame per element: with at least
    [length xs] free frames it returns what [foldFast] returns, with fewer
    it ends in a stack overflow. *)
Theorem fold_needs_a_frame_per_element St A E (undefined : E)
  (r : A -> E -> A) (xs : list E) (initial : A) (d : nat) (s : St) :
  xs <> [] ->
  fold undefined (pure2 r) initial xs d s
  = if length xs <=? d
    then foldFast (pure2 r) initial xs d s
    else Err StackOverflow s.
Proof.
  intros Hne. destruct (Nat.leb_spec (length xs) d) as [Hle|Hlt].
  - rewrite fold_enough_stack by assumption.
    destruct d as [|d]; [destruct xs; [congruence|simpl in Hle; lia]|].
    rewrite foldFast_foldlM. symmetry.
    apply foldlM_pure_step. reflexivity.
  - now apply fold_overflows.
Qed.

Lemma fold_needs_a_frame_per_element_witness :
  [1; 2; 3]%Z <> []
  /\ fold 0%Z (pure2 Z.add) 0%Z [1; 2; 3]%Z 2 tt = Err StackOverflow tt
  /\ fold 0%Z (pure2 Z.add) 0%Z [1; 2; 3]%Z 3 tt = Ok 6%Z tt.
Proof.
  assert (Hne : [1; 2; 3]%Z <> []) by discriminate.
  split; [exact Hne|]. split.
  - exact (fold_needs_a_frame_per_element 0%Z Z.add 0%Z 2 tt Hne).
  - exact (fold_needs_a_frame_per_element 0%Z Z.add 0%Z 3 tt Hne).
Defined.

(** X2. The recursive [fold] calls the reducer once more than there are
    elements: on a non-empty array the call for the last element is made
    twice (its first result is discarded), as a reducer that logs its
    elements shows. *)
Theorem fold_calls_last_twice A E (undefined : E) (r : A -> E -> A)
  (xs : list E) (initial : A) (d : nat) (l : list E) :
  xs <> [] -> length xs <= d ->
  fold undefined (log_calls r) initial xs d l
  = Ok (fold_left r xs initial) (l ++ xs ++ [last xs undefined]).
Proof.
  revert initial d l.
  induction xs as [|x tail IH]; intros initial d l Hne Hd; [congruence|].
  destruct d as [|d]; [simpl in Hd; lia|].
  rewrite fold_cons. unfold bind at 1.
  assert (Hstep : call (log_calls r initial x) (S d) l
                  = Ok (r initial x) (l ++ [x])) by reflexivity.
  rewrite Hstep.
  destruct tail as [|x' tail'].
  - cbn -[app]. now rewrite <- app_assoc.
  - cbn [length Nat.ltb Nat.leb]. rewrite call_S.
    rewrite IH by (try discriminate; simpl in *; lia).
    cbn [fold_left]. rewrite <- app_assoc.
    change (last (x :: x' :: tail') undefined)
      with (last (x' :: tail') undefined).
    reflexivity.
Qed.

Lemma fold_calls_last_twice_witness :
  [1; 2; 3]%Z <> [] /\ length [1; 2; 3]%Z <= 3
  /\ fold 0%Z (log_calls Z.add) 0%Z [1; 2; 3]%Z 3 []
     = Ok 6%Z [1; 2; 3; 3]%Z.
Proof.
  assert (Hne : [1; 2; 3]%Z <> []) by discriminate.
  assert (Hle : length [1; 2; 3]%Z <= 3) by (simpl; lia).
  split; [exact Hne|]. split; [exact Hle|].
  exact (fold_calls_last_twice 0%Z Z.add 0%Z [] Hne Hle).
Defined.

(** X3. On the empty array the recursive [fold] does not return the initial
    accumulator: it calls the reducer twice on [undefined] and returns the
    reducer's result, whereas [foldFast] returns the initial accumulator
    without any call. *)
Theorem fold_empty_array A E (undefined : E) (r : A -> E -> A) (initial : A)
  (d : nat) (l : list E) :
  fold undefined (log_calls r) initial [] (S d) l
  = Ok (r initial undefined) (l ++ [undefined; undefined])
  /\ foldFast (log_calls r) initial [] (S d) l = Ok initial l.
Proof.
  split.
  - cbn -[app]. now rewrite <- app_assoc.
  - now rewrite foldFast_foldlM.
Qed.

(** *** [mapFast], [filterFast] and the functions written with [reduce] *)

(** X4. [mapFast(f)(xs)] returns the images of the elements, in order and
    as many as there are elements; [f] is evaluated exactly once at each
    element, from left to right, and one free stack frame is enough for an
    input of any length. *)
Theorem mapFast_maps_in_order E E2 (f : E -> E2) (xs : list E) (d : nat)
  (l : list E) :
  mapFast (log_evals f) xs (S d) l = Ok (map f xs) (l ++ xs).
Proof.
  rewrite mapFast_array_map. unfold array_map.
  rewrite (foldlM_state_step _
             (fun acc x => acc ++ [f x]) (fun l x => l ++ [x]))
    by reflexivity.
  now rewrite fold_left_snoc_map, fold_left_snoc.
Qed.

(** X5. [filterFast(p)(xs)] returns the elements that satisfy [p], in
    their input order; [p] is evaluated exactly once at each element, from
    left to right, and one free stack frame is enough for an input of any
    length. *)
Theorem filterFast_filters_in_order E (p : E -> bool) (xs : list E) (d : nat)
  (l : list E) :
  filterFast (log_evals p) xs (S d) l = Ok (filter p xs) (l ++ xs).
Proof.
  rewrite filterFast_array_filter. unfold array_filter.
  rewrite (foldlM_state_step _
             (fun acc x => if p x then acc ++ [x] else acc)
             (fun l x => l ++ [x])).
  - now rewrite fold_left_snoc_filter, fold_left_snoc.
  - intros acc x s. unfold bind, call, log_evals, modify, ret.
    destruct (p x); reflexivity.
Qed.



(** *** [foldFast] stops at the first failure *)

(** X8. [foldFast] is fail-fast: when the reducer throws at some element,
    the fold ends with that exception and the state of that moment, and the
    elements after it are not visited (the outcome does not depend on
    them). *)
Theorem foldFast_fail_fast St A E (fn : A -> E -> M St A) (initial acc : A)
  (xs ys : list E) (x : E) (d : nat) (s s1 s2 : St) (e : error) :
  foldFast fn initial xs d s = Ok acc s1 ->
  call (fn acc x) d s1 = Err e s2 ->
  foldFast fn initial (xs ++ x :: ys) d s = Err e s2.
Proof.
  rewrite !foldFast_foldlM. intros Hxs Hx.
  rewrite foldlM_app. rewrite (bind_Ok _ _ _ _ Hxs).
  cbn [foldlM]. unfold bind. now rewrite Hx.
Qed.

Lemma foldFast_fail_fast_witness :
  foldFast (add_unless 3%Z) 0%Z [1; 2]%Z 1 tt = Ok 3%Z tt
  /\ call (add_unless 3%Z 3%Z 3%Z) 1 tt = Err (Thrown 0) tt
  /\ foldFast (add_unless 3%Z) 0%Z ([1; 2] ++ 3 :: [4; 5])%Z 1 tt
     = Err (Thrown 0) tt.
Proof.
  assert (H1 : foldFast (add_unless 3%Z) 0%Z [1; 2]%Z 1 tt = Ok 3%Z tt)
    by reflexivity.
  assert (H2 : call (add_unless 3%Z 3%Z 3%Z) 1 tt = Err (Thrown 0) tt)
    by reflexivity.
  split; [exact H1|]. split; [exact H2|].
  exact (@foldFast_fail_fast unit Z Z (add_unless 3%Z) 0%Z 3%Z [1; 2]%Z
           [4; 5]%Z 3%Z 1 tt tt tt (Thrown 0) H1 H2).
Defined.

(** *** Composition *)

Section CompositionFacts.

Context {St : Type}.

Lemma naive_map_pure {E E2} (f : E -> E2) xs d (s : St) :
  Naive.map (pure1 f) xs (S (S d)) s = Ok (map f xs) s.
Proof.
  unfold Naive.map, reduce.
  rewrite (foldlM_pure_step _ (fun acc x => acc ++ [f x])) by reflexivity.
  now rewrite fold_left_snoc_map.
Qed.

Lemma naive_filter_pure {E} (p : E -> bool) xs d (s : St) :
  Naive.filter (pure1 p) xs (S (S d)) s = Ok (filter p xs) s.
Proof.
  unfold Naive.filter, reduce.
  rewrite (foldlM_pure_step _ (fun acc x => if p x then acc ++ [x] else acc)).
  - now rewrite fold_left_snoc_filter.
  - intros acc x s'. unfold bind, call, pure1, ret. destruct (p x); reflexivity.
Qed.

(** One step of [rMap(f)(rFilter(p)(r))] for a reducer [r] without side
    effects. *)
Lemma fused_step_any {A E E2} (f : E -> E2) (p : E2 -> bool)
  (r : A -> E2 -> A) acc x d (s : St) :
  rMap (pure1 f) (rFilter (pure1 p) (pure2 r)) acc x (S (S d)) s
  = Ok (if p (f x) then r acc (f x) else acc) s.
Proof.
  unfold rMap, rFilter, bind, call, pure1, pure2, ret.
  destruct (p (f x)); reflexivity.
Qed.

Lemma fold_left_filter_map_any {A E E2} (f : E -> E2) (p : E2 -> bool)
  (r : A -> E2 -> A) xs acc :
  fold_left (fun a x => if p (f x) then r a (f x) else a) xs acc
  = fold_left r (filter p (map f xs)) acc.
Proof.
  revert acc; induction xs as [|x xs IH]; intros acc; simpl.
  - reflexivity.
  - destruct (p (f x)); simpl; apply IH.
Qed.

Lemma fold_left_map_any {A E E2} (f : E -> E2) (r : A -> E2 -> A) xs acc :
  fold_left (fun a x => r a (f x)) xs acc = fold_left r (map f xs) acc.
Proof.
  revert acc; induction xs as [|x xs IH]; intros acc; simpl; auto.
Qed.

End CompositionFacts.

(** X9. [compose] applies its functions from right to left: for a
    non-empty list of closure-building stages [t1, ..., tn], the composed
    function applied to [r] returns [t1(t2(...tn(r)...))]; the innermost
    stage runs [n - 1] frames deep. *)
Theorem compose_right_to_left St A (T : A -> A) (Ts : list (A -> A)) (r : A)
  (d : nat) (s : St) :
  length Ts <= d ->
  bind (compose (map pure1 (T :: Ts))) (fun t => call (t r)) (S d) s
  = Ok (fold_right (fun T' r' => T' r') r (T :: Ts)) s.
Proof.
  intros Hd. cbn [map].
  rewrite (bind_Ok _ _ _ _ (compose_cons _ _ _ _)).
  rewrite call_S. now apply composed_pure.
Qed.

Lemma compose_right_to_left_witness :
  length [Z.mul 2; Z.add 1] <= 2
  /\ bind (compose (map pure1 [Z.add 10; Z.mul 2; Z.add 1]))
       (fun t => call (t 5%Z)) 3 tt
     = Ok 22%Z tt.
Proof.
  assert (Hd : length [Z.mul 2; Z.add 1] <= 2) by (simpl; lia).
  split; [exact Hd|].
  exact (@compose_right_to_left unit Z (Z.add 10) [Z.mul 2; Z.add 1] 5%Z 2
           tt Hd).
Defined.

(** X10. The test-suite's composition, for every input: [compose(map(g),
    filter(p), map(f))(xs)] maps [f], keeps the images satisfying [p] and
    maps [g] over them. *)
Theorem compose_naive_pipeline St (f g : Z -> Z) (p : Z -> bool)
  (xs : list Z) (d : nat) (s : St) :
  bind (call (compose [Naive.map (pure1 g); Naive.filter (pure1 p);
                       Naive.map (pure1 f)]))
    (fun composed_fn => call (composed_fn xs)) (5 + d) s
  = Ok (map g (filter p (map f xs))) s.
Proof.
  cbn [Nat.add]. unfold bind at 1.
  rewrite call_S, compose_cons. cbv beta iota.
  rewrite call_S. cbn [composed]. unfold bind.
  rewrite !call_S, naive_map_pure.
  rewrite call_S, naive_filter_pure.
  rewrite call_S. apply naive_map_pure.
Qed.

(** X11. With [compose] as the composer the transducer pipeline
    [mapStep(f), filterStep(p)] is fused correctly for every downstream
    reducer without side effects: one fold gives what mapping, filtering
    and reducing in three passes give.  With [concat] from the empty array
    it builds the filtered array of images. *)
Theorem compose_fuses_map_filter St (A : Type) (f : Z -> Z) (p : Z -> bool)
  (r : A -> Z -> A) (initial : A) (xs : list Z) (d : nat) (s : St) :
  transduce [pure1 (rMap (pure1 f)); pure1 (rFilter (pure1 p))] (pure2 r)
    initial xs (4 + d) s
  = Ok (fold_left r (filter p (map f xs)) initial) s
  /\ transduce [pure1 (rMap (pure1 f)); pure1 (rFilter (pure1 p))] concat
       [] xs (4 + d) s
     = Ok (filter p (map f xs)) s.
Proof.
  assert (Hgen : forall B (r' : B -> Z -> B) initial',
             transduce [pure1 (rMap (pure1 f)); pure1 (rFilter (pure1 p))]
               (pure2 r') initial' xs (4 + d) s
             = Ok (fold_left r' (filter p (map f xs)) initial') s).
  { intros B r' initial'. unfold transduce. cbn [Nat.add]. unfold bind.
    rewrite call_S, compose_cons. cbv beta iota.
    assert (Hred : call (St := St)
                     (composed (pure1 (rMap (pure1 f)))
                        [pure1 (rFilter (pure1 p))] (pure2 (St := St) r'))
                     (S (S (S (S d)))) s
                   = Ok (rMap (pure1 f) (rFilter (pure1 p) (pure2 r'))) s)
      by reflexivity.
    rewrite Hred, call_S, foldFast_foldlM, <- fold_left_filter_map_any.
    apply foldlM_pure_step. intros acc x s'.
    rewrite call_S. apply fused_step_any. }
  split.
  - apply Hgen.
  - change (concat (St := St) (E := Z))
      with (pure2 (St := St) (fun (acc : list Z) x => acc ++ [x])).
    rewrite Hgen. now rewrite fold_left_snoc.
Qed.

(** X12. With [composeFast] as the composer the second stage of a
    two-stage pipeline is never applied, whatever it is: the fold reduces
    the image of every element. *)
Theorem composeFast_pipeline_ignores_second_stage St (A : Type) (f : Z -> Z)
  (t2 : (A -> Z -> M St A) -> M St (A -> Z -> M St A))
  (r : A -> Z -> A) (initial : A) (xs : list Z) (d : nat) (s : St) :
  transduceFast [pure1 (rMap (pure1 f)); t2] (pure2 r) initial xs (3 + d) s
  = Ok (fold_left r (map f xs) initial) s.
Proof.
  unfold transduceFast. cbn [Nat.add]. unfold bind.
  assert (Hred : call (St := St)
                   (composeFast [pure1 (rMap (pure1 f)); t2]
                      (pure2 (St := St) r)) (S (S (S d))) s
                 = Ok (rMap (pure1 f) (pure2 r)) s)
    by reflexivity.
  rewrite Hred, call_S, foldFast_foldlM, <- fold_left_map_any.
  apply foldlM_pure_step. intros acc x s'. reflexivity.
Qed.

(** *** Stages *)

(** X13. Stage laws, for every downstream reducer [r] (side effects
    included), which the left-hand sides reach one frame deeper where
    stated: two map stages fuse into the map of the composed transform; two
    filter stages fuse into the filter of the conjunction; and a filter
    placed after a map is the filter with the transform composed into its
    predicate placed before the map. *)
Theorem stage_laws St A E E2 E3 (f : E -> E2) (g : E2 -> E3)
  (p q : E -> bool) (p2 : E2 -> bool) :
  (forall (r : A -> E3 -> M St A) acc x d s,
      rMap (pure1 f) (rMap (pure1 g) r) acc x (S (S d)) s
      = rMap (pure1 (fun x' => g (f x'))) r acc x (S d) s)
  /\ (forall (r : A -> E -> M St A) acc x d s,
        rFilter (pure1 p) (rFilter (pure1 q) r) acc x (S (S d)) s
        = rFilter (pure1 (fun x' => p x' && q x')) r acc x (S d) s)
  /\ (forall (r : A -> E2 -> M St A) acc x d s,
        rMap (pure1 f) (rFilter (pure1 p2) r) acc x (S (S d)) s
        = rFilter (pure1 (fun x' => p2 (f x'))) (rMap (pure1 f) r) acc x
            (S (S d)) s).
Proof.
  split; [|split]; intros r acc x d s.
  - reflexivity.
  - unfold rFilter, bind, call, pure1, ret.
    destruct (p x), (q x); reflexivity.
  - unfold rMap, rFilter, bind, call, pure1, ret.
    destruct (p2 (f x)); reflexivity.
Qed.

(** *** Arithmetic helpers and the benchmark rows *)

Section Benchmark.

Context {St : Type}.

Local Open Scope Z_scope.










End Benchmark.




(** X17. The row TRANSDUCE returns the plain sum of the input: the outer
    [composeFast] only applies [foldFast(add, 0)], so that the composed
    reducer [transduced] is never called and nothing is multiplied or
    filtered.  This is a tenth of what the other rows return. *)
Theorem row_transduce_result St
  (as_entry : (list Z -> Z -> M St (list Z)) -> value -> M St value)
  (data : list Z) (d : nat) (s : St) :
  row_transduce as_entry data (3 + d) s
  = Ok (VNum (fold_left Z.add data 0%Z)) s.
Proof.
  unfold row_transduce. cbn [Nat.add]. unfold bind at 1.
  assert (Hred : call (St := St)
                   (composeFast
                      [pure1 (rFilter isEven); pure1 (rMap multBy10)]
                      (concat (St := St) (E := Z))) (S (S (S d))) s
                 = Ok (rFilter isEven concat) s) by reflexivity.
  rewrite Hred, call_S, composeFast_cons2.
  cbn [rev foldlM]. rewrite bind_ret_r, call_S.
  cbn [foldFast_v]. unfold bind. rewrite foldFast_foldlM.
  rewrite (foldlM_pure_step _ Z.add) by reflexivity.
  reflexivity.
Qed.

(** *** [imperativeSolution] *)

Section Imperative.

Context {St : Type}.

Local Open Scope Z_scope.





End Imperative.

